(** * uniplot: the interactive viewport of [uniplot.plot]

    A shallow embedding of [src/uniplot/uniplot.py].  The function [plot]
    normalises its input, validates the options, and then runs a
    render / read-key loop in which the keys h, j, k, l, u, n, r, q and
    escape pan, zoom, reset or leave the view.

    Numbers.  The bounds are Python floats in the source.  The main
    embedding computes in exact arithmetic: a bound is a rational ([Q]),
    the literal [0.1] is the rational 1/10, and equality of bounds is
    equality of rationals ([==]).  What is proved of it is what the code
    does up to rounding, overflow and NaN.  The module [Binary64] embeds
    the pan and zoom assignments a second time, on binary64 floats as
    Python computes them; it shows where the exact statements stop
    holding of the floats. *)

From Stdlib Require Import QArith Qround Qminmax Qpower ZArith List String Ascii Bool Lia Lqa.
From Corelib Require Import PrimFloat.
Import ListNotations.

Local Open Scope Q_scope.

(** ** The options object *)

Module Options.

(** The fields of [uniplot.options.Options] that [plot] reads or writes. *)
Record t : Type := mk {
  x_min : Q;
  x_max : Q;
  y_min : Q;
  y_max : Q;
  width : Z;
  height : Z;
  interactive : bool;
  title : option string;
  legend_labels : option (list string);
  (** Modelled from the spec: the class [Options] is not part of the
      sources at hand; it stores the original bounds as the target of
      the reset command. *)
  initial_bounds : Q * Q * Q * Q
}.

Definition set_x_min (v : Q) (o : t) : t :=
  mk v (x_max o) (y_min o) (y_max o) (width o) (height o)
     (interactive o) (title o) (legend_labels o) (initial_bounds o).

Definition set_x_max (v : Q) (o : t) : t :=
  mk (x_min o) v (y_min o) (y_max o) (width o) (height o)
     (interactive o) (title o) (legend_labels o) (initial_bounds o).

Definition set_y_min (v : Q) (o : t) : t :=
  mk (x_min o) (x_max o) v (y_max o) (width o) (height o)
     (interactive o) (title o) (legend_labels o) (initial_bounds o).

Definition set_y_max (v : Q) (o : t) : t :=
  mk (x_min o) (x_max o) (y_min o) v (width o) (height o)
     (interactive o) (title o) (legend_labels o) (initial_bounds o).

(** Modelled from the spec: [Options.reset_view] is not part of the
    sources at hand.  The reset command sets the bounds to the original
    bounds captured at the start of the session, and touches nothing
    else. *)
Definition reset_view (o : t) : t :=
  let '(x0, x1, y0, y1) := initial_bounds o in
  mk x0 x1 y0 y1 (width o) (height o)
     (interactive o) (title o) (legend_labels o) (initial_bounds o).

End Options.

Import Options.

(** The literal [0.1]. *)
Definition tenth : Q := 1 # 10.

(** ** One keystroke: lines 76 to 116 of [plot]

    Each branch assigns to the options object one field after the other;
    [step] is computed before the first assignment of its pair, so the
    second assignment of a pair uses the same [step]. *)

Definition pan_left (o : Options.t) : Options.t :=
  let step := tenth * (x_max o - x_min o) in
  let o := set_x_min (x_min o - step) o in
  let o := set_x_max (x_max o - step) o in
  o.

Definition pan_right (o : Options.t) : Options.t :=
  let step := tenth * (x_max o - x_min o) in
  let o := set_x_min (x_min o + step) o in
  let o := set_x_max (x_max o + step) o in
  o.

Definition pan_up (o : Options.t) : Options.t :=
  let step := tenth * (y_max o - y_min o) in
  let o := set_y_min (y_min o - step) o in
  let o := set_y_max (y_max o - step) o in
  o.

Definition pan_down (o : Options.t) : Options.t :=
  let step := tenth * (y_max o - y_min o) in
  let o := set_y_min (y_min o + step) o in
  let o := set_y_max (y_max o + step) o in
  o.

Definition zoom_in (o : Options.t) : Options.t :=
  let step := tenth * (x_max o - x_min o) in
  let o := set_x_min (x_min o + step) o in
  let o := set_x_max (x_max o - step) o in
  let step := tenth * (y_max o - y_min o) in
  let o := set_y_min (y_min o + step) o in
  let o := set_y_max (y_max o - step) o in
  o.

Definition zoom_out (o : Options.t) : Options.t :=
  let step := tenth * (x_max o - x_min o) in
  let o := set_x_min (x_min o - step) o in
  let o := set_x_max (x_max o + step) o in
  let step := tenth * (y_max o - y_min o) in
  let o := set_y_min (y_min o - step) o in
  let o := set_y_max (y_max o + step) o in
  o.

(** The escape character, ["\x1b"]. *)
Definition ESC : string := String (ascii_of_nat 27) EmptyString.

(** The [if]/[elif] chain on [key_pressed].  It returns the options and the
    new value of [continue_looping], which only the last branch changes. *)
Definition handle_key (key_pressed : string) (o : Options.t)
    (continue_looping : bool) : Options.t * bool :=
  if (key_pressed =? "h")%string then (pan_left o, continue_looping)
  else if (key_pressed =? "l")%string then (pan_right o, continue_looping)
  else if (key_pressed =? "j")%string then (pan_up o, continue_looping)
  else if (key_pressed =? "k")%string then (pan_down o, continue_looping)
  else if (key_pressed =? "u")%string then (zoom_in o, continue_looping)
  else if (key_pressed =? "n")%string then (zoom_out o, continue_looping)
  else if (key_pressed =? "r")%string then (reset_view o, continue_looping)
  else if ((key_pressed =? "q")%string || (key_pressed =? ESC)%string)%bool
       then (o, false)
  else (o, continue_looping).

(** The extent of each axis. *)
Definition x_extent (o : Options.t) : Q := x_max o - x_min o.
Definition y_extent (o : Options.t) : Q := y_max o - y_min o.

(** ** The key source

    [getch()] is an external collaborator: it blocks until a key is
    available and returns it as a string.  The embedding feeds [plot] the
    list of the strings that the successive calls of [getch()] return.
    [str.lower] is embedded on byte strings: it maps the ASCII capitals to
    the small letters and leaves every other byte as it is.  The properties
    of the loop are stated on the lowered key, [key_pressed], and hold
    whatever [lower] does to the other characters. *)

Definition lower_ascii (c : ascii) : ascii :=
  let n := nat_of_ascii c in
  if ((65 <=? n)%nat && (n <=? 90)%nat)%bool then ascii_of_nat (n + 32) else c.

Fixpoint lower (s : string) : string :=
  match s with
  | EmptyString => EmptyString
  | String c s' => String (lower_ascii c) (lower s')
  end.

(** ** What [plot] prints

    The strings themselves are built by helpers of [uniplot.plot_elements]
    and [uniplot.layer_assembly], which are not part of the sources at
    hand.  A printed line is therefore recorded as the call that produces
    it, with the arguments [plot] passes. *)

Inductive line : Type :=
| TitleLine (title : string) (width : Z)
    (* print(elements.plot_title(options.title, width=options.width)) *)
| EraseLines (nr_lines_to_erase : Z)
    (* elements.erase_previous_lines(nr_lines_to_erase) *)
| TopBorder (width : Z)
| PlotRow (i : Z) (view : Options.t)
    (* row i of the pixel matrix and label i of the y axis, both computed
       from the options as they are at this iteration *)
| BottomBorder (width : Z)
| XAxisLabels (x_min x_max : Q) (width : Z)
| LegendLines (legend_labels : list string) (width : Z)
| HelpLine.
    (* "Move h/j/k/l, zoom u/n, or r to reset. ESC/q to quit" *)

(** [range(n)] *)
Definition range (n : Z) : list Z := map Z.of_nat (seq 0 (Z.to_nat n)).

(** Lines 51 to 69: erase the previous plot, then print the new one. *)
Definition render (o : Options.t) (loop_iteration : Z) : list line :=
  (if (loop_iteration >? 0)%Z then
     let nr_lines_to_erase := (height o + 4)%Z in
     let nr_lines_to_erase :=
       match legend_labels o with
       | Some labels => (nr_lines_to_erase + Z.of_nat (List.length labels))%Z
       | None => nr_lines_to_erase
       end in
     [EraseLines nr_lines_to_erase]
   else [])
  ++ [TopBorder (width o)]
  ++ map (fun i => PlotRow i o) (range (height o))
  ++ [BottomBorder (width o)]
  ++ [XAxisLabels (x_min o) (x_max o) (width o)]
  ++ match legend_labels o with
     | Some labels => [LegendLines labels (width o)]
     | None => []
     end.

(** How a run of the loop over the keys at hand ends: the loop is left and
    [plot] returns, with the keys it has not read; or the loop is blocked
    in [getch()], all keys read. *)
Inductive outcome : Type :=
| Returned (o : Options.t) (loop_iteration : Z) (unread : list string)
| AwaitingKey (o : Options.t) (loop_iteration : Z).

(** Lines 31 to 118: the [while continue_looping] loop, entered with
    [continue_looping = True].  In interactive mode every iteration reads
    one key, so the recursion is on the list of keys. *)
Fixpoint main_loop (keys : list string) (o : Options.t) (loop_iteration : Z)
    : list line * outcome :=
  let continue_looping := true in
  let continue_looping :=
    if negb (interactive o) then false else continue_looping in
  let out := render o loop_iteration in
  if interactive o then
    let out := out ++ [HelpLine] in
    match keys with
    | [] => (out, AwaitingKey o loop_iteration)
    | k :: keys' =>
        let key_pressed := lower k in
        let '(o', continue_looping) :=
          handle_key key_pressed o continue_looping in
        let loop_iteration := (loop_iteration + 1)%Z in
        if continue_looping then
          let '(out', r) := main_loop keys' o' loop_iteration in
          (out ++ out', r)
        else (out, Returned o' loop_iteration keys')
    end
  else
    (* continue_looping is False here: the loop runs once *)
    (out, Returned o loop_iteration keys).

(** ** Input normalisation and option validation *)

Inductive exn : Type :=
| ShapeMismatch
| InvalidDimension
| LabelCountMismatch.

(** The argument [ys] (and [xs]): a list, or a list of lists. *)
Inductive data : Type :=
| Flat (v : list Q)
| Nested (vs : list (list Q)).

Module MultiSeries.

Record t : Type := mk { xs : list (list Q); ys : list (list Q) }.

Definition normalise (d : data) : list (list Q) :=
  match d with
  | Flat v => [v]
  | Nested vs => vs
  end.

Definition indices (s : list Q) : list Q :=
  map (fun i => inject_Z (Z.of_nat i)) (seq 0 (List.length s)).

Fixpoint same_shape (a b : list (list Q)) : bool :=
  match a, b with
  | [], [] => true
  | s :: a', s' :: b' =>
      (List.length s =? List.length s')%nat && same_shape a' b'
  | _, _ => false
  end.

(** Modelled from the spec: the class [uniplot.multi_series.MultiSeries]
    is not part of the sources at hand.  It normalises [ys] to a list of
    series; when [xs] is omitted the x of a point is its 0-based index in
    its series; it fails with [ShapeMismatch] when [xs] is given and
    differs from [ys] in the number of series or in the length of some
    series. *)
Definition init (xs : option data) (ys : data) : exn + t :=
  let ys := normalise ys in
  match xs with
  | None => inr (mk (map indices ys) ys)
  | Some xs =>
      let xs := normalise xs in
      if same_shape xs ys then inr (mk xs ys) else inl ShapeMismatch
  end.

End MultiSeries.

(** The keyword arguments that end up in the fields [plot] uses; each is
    optional. *)
Record Kwargs : Type := {
  kw_width : option Z;
  kw_height : option Z;
  kw_x_min : option Q;
  kw_x_max : option Q;
  kw_y_min : option Q;
  kw_y_max : option Q;
  kw_interactive : option bool;
  kw_title : option string;
  kw_legend_labels : option (list string)
}.

Definition no_kwargs : Kwargs :=
  Build_Kwargs None None None None None None None None None.

Definition Qmin_list (d : Q) (l : list Q) : Q := fold_left Qmin l d.
Definition Qmax_list (d : Q) (l : list Q) : Q := fold_left Qmax l d.

(** Modelled from the spec: the default range of an axis is the minimum and
    the maximum of the data on that axis; when they are equal the range is
    widened by 1 on both sides.  The spec does not give the range of an
    empty data set; this model widens the point 0. *)
Definition default_range (series : list (list Q)) : Q * Q :=
  let all := List.concat series in
  let '(lo, hi) :=
    match all with
    | [] => (0, 0)
    | v :: rest => (Qmin_list v rest, Qmax_list v rest)
    end in
  if Qeq_bool lo hi then (lo - 1, hi + 1) else (lo, hi).

Definition or_default {A : Type} (v : option A) (d : A) : A :=
  match v with
  | Some a => a
  | None => d
  end.

(** Modelled from the spec: [validate_and_transform_options] is not part of
    the sources at hand.  The width defaults to 60 and the height to 17;
    a width or height that is not positive fails with [InvalidDimension];
    legend labels whose count differs from the number of series fail with
    [LabelCountMismatch]; the bounds that are not given come from the
    data, and the initial bounds are stored as the reset target. *)
Definition validate_and_transform_options (series : MultiSeries.t)
    (kwargs : Kwargs) : exn + Options.t :=
  let width := or_default (kw_width kwargs) 60%Z in
  let height := or_default (kw_height kwargs) 17%Z in
  if ((width <=? 0)%Z || (height <=? 0)%Z)%bool then inl InvalidDimension
  else
    let labels_ok :=
      match kw_legend_labels kwargs with
      | Some labels =>
          (List.length labels =? List.length (MultiSeries.ys series))%nat
      | None => true
      end in
    if negb labels_ok then inl LabelCountMismatch
    else
      let '(dx_min, dx_max) := default_range (MultiSeries.xs series) in
      let '(dy_min, dy_max) := default_range (MultiSeries.ys series) in
      let x_min := or_default (kw_x_min kwargs) dx_min in
      let x_max := or_default (kw_x_max kwargs) dx_max in
      let y_min := or_default (kw_y_min kwargs) dy_min in
      let y_max := or_default (kw_y_max kwargs) dy_max in
      inr (Options.mk x_min x_max y_min y_max width height
             (or_default (kw_interactive kwargs) false)
             (kw_title kwargs) (kw_legend_labels kwargs)
             (x_min, x_max, y_min, y_max)).

(** ** [plot]

    The result is what was printed, and either the exception raised or the
    way the loop ended. *)
Definition plot (ys : data) (xs : option data) (kwargs : Kwargs)
    (keys : list string) : list line * (exn + outcome) :=
  match MultiSeries.init xs ys with
  | inl e => ([], inl e)
  | inr series =>
      match validate_and_transform_options series kwargs with
      | inl e => ([], inl e)
      | inr options =>
          let out :=
            match title options with
            | Some t => [TitleLine t (width options)]
            | None => []
            end in
          let '(out', r) := main_loop keys options 0 in
          (out ++ out', inr r)
      end
  end.

(** ** Sessions *)

(** The options after one key, whatever [continue_looping] is. *)
Definition after (key_pressed : string) (o : Options.t) : Options.t :=
  fst (handle_key key_pressed o true).

(** The options after the keys of a list, pressed in order. *)
Definition after_keys (keys : list string) (o : Options.t) : Options.t :=
  fold_left (fun o k => after (lower k) o) keys o.

(** The keys that end the loop. *)
Definition is_quit (key_pressed : string) : bool :=
  ((key_pressed =? "q")%string || (key_pressed =? ESC)%string)%bool.

(** The keys the chain of comparisons names. *)
Definition recognized : list string :=
  ["h"; "j"; "k"; "l"; "u"; "n"; "r"; "q"; ESC]%string.

(** The invariant of the bounds. *)
Definition bounds_ok (o : Options.t) : Prop :=
  x_min o < x_max o /\ y_min o < y_max o.

(** The reset target holds the same bounds as the options: so it is when a
    session starts. *)
Definition at_start (o : Options.t) : Prop :=
  initial_bounds o = (x_min o, x_max o, y_min o, y_max o).

(** The options object of a session: one whose reset target has just been
    captured, and every one a key leads to from there. *)
Inductive reachable : Options.t -> Prop :=
| reach_start : forall o, at_start o -> reachable o
| reach_key : forall key_pressed o,
    reachable o -> reachable (after key_pressed o).

(** What a command leaves alone: the grid, the flags, the texts and the
    reset target. *)
Definition same_frame (o o' : Options.t) : Prop :=
  width o' = width o /\ height o' = height o /\
  interactive o' = interactive o /\ title o' = title o /\
  legend_labels o' = legend_labels o /\
  initial_bounds o' = initial_bounds o.

(** ** Sample inputs *)

(** [plot([0, 1, 2, 3])], and the same with two legend labels. *)
Definition sample_ys : data := Flat [0; 1; 2; 3].

Definition sample_series : MultiSeries.t :=
  MultiSeries.mk [[0; 1; 2; 3]] [[0; 1; 2; 3]].

Definition sample_interactive : Kwargs :=
  Build_Kwargs None None None None None None (Some true) None None.

Definition sample_two_labels : Kwargs :=
  Build_Kwargs None None None None None None None (Some "demo"%string)
    (Some ["a"; "b"]%string).

Definition sample_options : Options.t :=
  Options.mk 0 3 0 3 60 17 true None None (0, 3, 0, 3).

(** ** The same assignments on binary64 floats

    Python's [float] is IEEE 754 binary64, and so is [PrimFloat.float].
    The six branches of lines 76 to 111 are embedded here once more, with
    the float operations in place of the rational ones.  The literal [0.1]
    is the binary64 number nearest to one tenth. *)

Module Binary64.

Record Bounds : Type := mk {
  x_min : float;
  x_max : float;
  y_min : float;
  y_max : float
}.

Definition set_x_min (v : float) (b : Bounds) : Bounds :=
  mk v (x_max b) (y_min b) (y_max b).

Definition set_x_max (v : float) (b : Bounds) : Bounds :=
  mk (x_min b) v (y_min b) (y_max b).

Definition set_y_min (v : float) (b : Bounds) : Bounds :=
  mk (x_min b) (x_max b) v (y_max b).

Definition set_y_max (v : float) (b : Bounds) : Bounds :=
  mk (x_min b) (x_max b) (y_min b) v.

(** The literal [0.1]. *)
Definition tenth : float := 0x1.999999999999ap-4%float.

Definition pan_left (b : Bounds) : Bounds :=
  let step := (tenth * (x_max b - x_min b))%float in
  let b := set_x_min (x_min b - step)%float b in
  let b := set_x_max (x_max b - step)%float b in
  b.

Definition pan_right (b : Bounds) : Bounds :=
  let step := (tenth * (x_max b - x_min b))%float in
  let b := set_x_min (x_min b + step)%float b in
  let b := set_x_max (x_max b + step)%float b in
  b.

Definition pan_up (b : Bounds) : Bounds :=
  let step := (tenth * (y_max b - y_min b))%float in
  let b := set_y_min (y_min b - step)%float b in
  let b := set_y_max (y_max b - step)%float b in
  b.

Definition pan_down (b : Bounds) : Bounds :=
  let step := (tenth * (y_max b - y_min b))%float in
  let b := set_y_min (y_min b + step)%float b in
  let b := set_y_max (y_max b + step)%float b in
  b.

Definition zoom_in (b : Bounds) : Bounds :=
  let step := (tenth * (x_max b - x_min b))%float in
  let b := set_x_min (x_min b + step)%float b in
  let b := set_x_max (x_max b - step)%float b in
  let step := (tenth * (y_max b - y_min b))%float in
  let b := set_y_min (y_min b + step)%float b in
  let b := set_y_max (y_max b - step)%float b in
  b.

Definition zoom_out (b : Bounds) : Bounds :=
  let step := (tenth * (x_max b - x_min b))%float in
  let b := set_x_min (x_min b - step)%float b in
  let b := set_x_max (x_max b + step)%float b in
  let step := (tenth * (y_max b - y_min b))%float in
  let b := set_y_min (y_min b - step)%float b in
  let b := set_y_max (y_max b + step)%float b in
  b.

(** The x range (0, 10) of the spec's pan scenario, on a unit y range. *)
Definition zero_to_ten : Bounds := mk 0 10 0 1.

(** A wide x range: [x_max] is 1.9375 * 2^1023, about 1.74e308, below the
    largest binary64 number. *)
Definition wide : Bounds := mk 0 0x1.fp1023 0 1.

(** A narrow view: each range goes from 1 to the next binary64 number
    after 1. *)
Definition narrow : Bounds :=
  mk 1 0x1.0000000000001p0 1 0x1.0000000000001p0.

End Binary64.

(** ** Reading a run *)

(** The options a run ends with, and whether [plot] has returned. *)
Definition final_options (r : outcome) : Options.t :=
  match r with
  | Returned o _ _ => o
  | AwaitingKey o _ => o
  end.

Definition has_returned (r : outcome) : bool :=
  match r with
  | Returned _ _ _ => true
  | AwaitingKey _ _ => false
  end.

Definition is_title (l : line) : bool :=
  match l with TitleLine _ _ => true | _ => false end.

Definition is_erase (l : line) : bool :=
  match l with EraseLines _ => true | _ => false end.

Definition is_top (l : line) : bool :=
  match l with TopBorder _ => true | _ => false end.

Definition is_help (l : line) : bool :=
  match l with HelpLine => true | _ => false end.

(** A line that a call of [print] has put on the screen. *)
Definition is_printed (l : line) : bool := negb (is_erase l).

Definition count (p : line -> bool) (out : list line) : nat :=
  List.length (filter p out).

(** The title line of [plot], lines 27 and 28. *)
Definition title_lines (o : Options.t) : list line :=
  match title o with
  | Some t => [TitleLine t (width o)]
  | None => []
  end.

(** ** The tick labeler *)

Module TickLabeler.

(** Modelled from the spec: the tick helpers of [uniplot.plot_elements]
    are not part of the sources at hand.
    [raw_step = (range_max - range_min) / slot_count]. *)
Definition raw_step (range_min range_max : Q) (slot_count : nat) : Q :=
  (range_max - range_min) / inject_Z (Z.of_nat slot_count).

Definition pow10 (k : Z) : Q := inject_Z 10 ^ k.

(** A bound [K] with [10^(-K) < q <= 10^K] for a positive [q]. *)
Definition span (q : Q) : Z :=
  (Z.log2 (Qnum q) + Z.log2 (Zpos (Qden q)) + 1)%Z.

Definition exponents (K : Z) : list Z :=
  map (fun i => (Z.of_nat i - K)%Z) (seq 0 (Z.to_nat (2 * K + 1))).

(** The values 1, 2 and 5 times [10^k] for [-K <= k <= K], ascending. *)
Definition nice_numbers (K : Z) : list Q :=
  flat_map (fun k => [1 * pow10 k; 2 * pow10 k; 5 * pow10 k]) (exponents K).

(** Modelled from the spec: the step is [raw_step] rounded up to the
    nearest value in {1, 2, 5} x 10^k, k an integer.  No such value
    exists when [raw_step] is not positive; the result is then [None]. *)
Definition nice_step (raw : Q) : option Q :=
  if Qlt_le_dec 0 raw
  then find (fun c => Qle_bool raw c) (nice_numbers (span raw))
  else None.

(** Modelled from the spec: the first multiple of [step] that is at least
    [range_min]. *)
Definition first_tick (range_min step : Q) : Q :=
  inject_Z (Qceiling (range_min / step)) * step.

(** How many multiples of [step] there are from the first tick up to
    [range_max]. *)
Definition tick_count (range_min range_max step : Q) : nat :=
  let first := first_tick range_min step in
  if Qle_bool first range_max
  then Z.to_nat (Qfloor ((range_max - first) / step) + 1)
  else O.

(** Modelled from the spec: the tick positions start at the first
    multiple of the step that is at least [range_min] and go on by the
    step, up to [range_max]. *)
Definition positions (range_min range_max step : Q) : list Q :=
  let first := first_tick range_min step in
  map (fun i => first + inject_Z (Z.of_nat i) * step)
      (seq 0 (tick_count range_min range_max step)).

(** Modelled from the spec: the ticks of a range on [slot_count] slots are
    the positions for the nice step of the raw step; there are none when
    there is no step. *)
Definition ticks (range_min range_max : Q) (slot_count : nat) : list Q :=
  match nice_step (raw_step range_min range_max slot_count) with
  | Some step => positions range_min range_max step
  | None => []
  end.

End TickLabeler.

(** * Properties *)

(** ** The chain of comparisons, key by key *)

Lemma after_h (o : Options.t) : after "h" o = pan_left o.
Proof. reflexivity. Qed.

Lemma after_l (o : Options.t) : after "l" o = pan_right o.
Proof. reflexivity. Qed.

Lemma after_j (o : Options.t) : after "j" o = pan_up o.
Proof. reflexivity. Qed.

Lemma after_k (o : Options.t) : after "k" o = pan_down o.
Proof. reflexivity. Qed.

Lemma after_u (o : Options.t) : after "u" o = zoom_in o.
Proof. reflexivity. Qed.

Lemma after_n (o : Options.t) : after "n" o = zoom_out o.
Proof. reflexivity. Qed.

Lemma after_r (o : Options.t) : after "r" o = reset_view o.
Proof. reflexivity. Qed.

(** The options after a key do not depend on [continue_looping]. *)
Lemma handle_key_fst (key_pressed : string) (o : Options.t) (c : bool) :
  fst (handle_key key_pressed o c) = after key_pressed o.
Proof.
  unfold after, handle_key.
  repeat match goal with
         | |- context [if ?b then _ else _] => destruct b
         end; reflexivity.
Qed.

(** Every key is one of the nine cases of the chain. *)
Lemma after_cases (key_pressed : string) (o : Options.t) :
  after key_pressed o = pan_left o \/ after key_pressed o = pan_right o \/
  after key_pressed o = pan_up o \/ after key_pressed o = pan_down o \/
  after key_pressed o = zoom_in o \/ after key_pressed o = zoom_out o \/
  after key_pressed o = reset_view o \/ after key_pressed o = o.
Proof.
  unfold after, handle_key.
  repeat match goal with
         | |- context [if ?b then _ else _] => destruct b
         end; simpl; tauto.
Qed.

(** ** The fields after each command

    One equation per command and bound, read off the assignments. *)

Lemma pan_left_x_min (o : Options.t) :
  x_min (pan_left o) = x_min o - tenth * (x_max o - x_min o).
Proof. reflexivity. Qed.

Lemma pan_left_x_max (o : Options.t) :
  x_max (pan_left o) = x_max o - tenth * (x_max o - x_min o).
Proof. reflexivity. Qed.

Lemma pan_left_y_min (o : Options.t) :
  y_min (pan_left o) = y_min o.
Proof. reflexivity. Qed.

Lemma pan_left_y_max (o : Options.t) :
  y_max (pan_left o) = y_max o.
Proof. reflexivity. Qed.

Lemma pan_right_x_min (o : Options.t) :
  x_min (pan_right o) = x_min o + tenth * (x_max o - x_min o).
Proof. reflexivity. Qed.

Lemma pan_right_x_max (o : Options.t) :
  x_max (pan_right o) = x_max o + tenth * (x_max o - x_min o).
Proof. reflexivity. Qed.

Lemma pan_right_y_min (o : Options.t) :
  y_min (pan_right o) = y_min o.
Proof. reflexivity. Qed.

Lemma pan_right_y_max (o : Options.t) :
  y_max (pan_right o) = y_max o.
Proof. reflexivity. Qed.

Lemma pan_up_x_min (o : Options.t) :
  x_min (pan_up o) = x_min o.
Proof. reflexivity. Qed.

Lemma pan_up_x_max (o : Options.t) :
  x_max (pan_up o) = x_max o.
Proof. reflexivity. Qed.

Lemma pan_up_y_min (o : Options.t) :
  y_min (pan_up o) = y_min o - tenth * (y_max o - y_min o).
Proof. reflexivity. Qed.

Lemma pan_up_y_max (o : Options.t) :
  y_max (pan_up o) = y_max o - tenth * (y_max o - y_min o).
Proof. reflexivity. Qed.

Lemma pan_down_x_min (o : Options.t) :
  x_min (pan_down o) = x_min o.
Proof. reflexivity. Qed.

Lemma pan_down_x_max (o : Options.t) :
  x_max (pan_down o) = x_max o.
Proof. reflexivity. Qed.

Lemma pan_down_y_min (o : Options.t) :
  y_min (pan_down o) = y_min o + tenth * (y_max o - y_min o).
Proof. reflexivity. Qed.

Lemma pan_down_y_max (o : Options.t) :
  y_max (pan_down o) = y_max o + tenth * (y_max o - y_min o).
Proof. reflexivity. Qed.

Lemma zoom_in_x_min (o : Options.t) :
  x_min (zoom_in o) = x_min o + tenth * (x_max o - x_min o).
Proof. reflexivity. Qed.

Lemma zoom_in_x_max (o : Options.t) :
  x_max (zoom_in o) = x_max o - tenth * (x_max o - x_min o).
Proof. reflexivity. Qed.

Lemma zoom_in_y_min (o : Options.t) :
  y_min (zoom_in o) = y_min o + tenth * (y_max o - y_min o).
Proof. reflexivity. Qed.

Lemma zoom_in_y_max (o : Options.t) :
  y_max (zoom_in o) = y_max o - tenth * (y_max o - y_min o).
Proof. reflexivity. Qed.

Lemma zoom_out_x_min (o : Options.t) :
  x_min (zoom_out o) = x_min o - tenth * (x_max o - x_min o).
Proof. reflexivity. Qed.

Lemma zoom_out_x_max (o : Options.t) :
  x_max (zoom_out o) = x_max o + tenth * (x_max o - x_min o).
Proof. reflexivity. Qed.

Lemma zoom_out_y_min (o : Options.t) :
  y_min (zoom_out o) = y_min o - tenth * (y_max o - y_min o).
Proof. reflexivity. Qed.

Lemma zoom_out_y_max (o : Options.t) :
  y_max (zoom_out o) = y_max o + tenth * (y_max o - y_min o).
Proof. reflexivity. Qed.

Create Rewrite HintDb view.
#[local] Hint Rewrite pan_left_x_min pan_left_x_max pan_left_y_min pan_left_y_max
  pan_right_x_min pan_right_x_max pan_right_y_min pan_right_y_max
  pan_up_x_min pan_up_x_max pan_up_y_min pan_up_y_max
  pan_down_x_min pan_down_x_max pan_down_y_min pan_down_y_max
  zoom_in_x_min zoom_in_x_max zoom_in_y_min zoom_in_y_max
  zoom_out_x_min zoom_out_x_max zoom_out_y_min zoom_out_y_max : view.

Ltac view := autorewrite with view; unfold tenth.

(** ** Pan and zoom *)

(** C1: each pan key shifts both ends of one axis by one tenth of the
    extent that axis has when the key is pressed, and leaves the other axis
    as it is: h subtracts the x delta from [x_min] and [x_max], l adds it,
    j subtracts the y delta from [y_min] and [y_max], k adds it. *)
Theorem pan_shifts_one_axis_by_tenth_of_extent (o : Options.t) :
  let dx := (1 # 10) * (x_max o - x_min o) in
  let dy := (1 # 10) * (y_max o - y_min o) in
  (x_min (after "h" o) == x_min o - dx /\ x_max (after "h" o) == x_max o - dx /\
   y_min (after "h" o) = y_min o /\ y_max (after "h" o) = y_max o) /\
  (x_min (after "l" o) == x_min o + dx /\ x_max (after "l" o) == x_max o + dx /\
   y_min (after "l" o) = y_min o /\ y_max (after "l" o) = y_max o) /\
  (y_min (after "j" o) == y_min o - dy /\ y_max (after "j" o) == y_max o - dy /\
   x_min (after "j" o) = x_min o /\ x_max (after "j" o) = x_max o) /\
  (y_min (after "k" o) == y_min o + dy /\ y_max (after "k" o) == y_max o + dy /\
   x_min (after "k" o) = x_min o /\ x_max (after "k" o) = x_max o).
Proof.
  intros dx dy; subst dx dy.
  rewrite after_h, after_l, after_j, after_k.
  unfold x_extent, y_extent; view.
  repeat split; reflexivity.
Qed.

(** C2: zoom-in (u) adds one tenth of the x extent to [x_min] and subtracts
    it from [x_max], and does the same on the y axis with one tenth of the
    y extent, both extents taken before the key; zoom-out (n) does the same
    with the signs exchanged. *)
Theorem zoom_moves_each_end_by_tenth_of_extent (o : Options.t) :
  let dx := (1 # 10) * (x_max o - x_min o) in
  let dy := (1 # 10) * (y_max o - y_min o) in
  (x_min (after "u" o) == x_min o + dx /\ x_max (after "u" o) == x_max o - dx /\
   y_min (after "u" o) == y_min o + dy /\ y_max (after "u" o) == y_max o - dy) /\
  (x_min (after "n" o) == x_min o - dx /\ x_max (after "n" o) == x_max o + dx /\
   y_min (after "n" o) == y_min o - dy /\ y_max (after "n" o) == y_max o + dy).
Proof.
  intros dx dy; subst dx dy.
  rewrite after_u, after_n.
  unfold x_extent, y_extent; view.
  repeat split; reflexivity.
Qed.

(** C4, as the claim states it, fails on the floats: on the wide x range
    pan-right overflows [x_max] to infinity, and the pan-left after it
    leaves [x_min] at minus infinity and [x_max] at NaN, within no
    tolerance of the range it started from. *)
Lemma pan_right_then_left_overflows_in_binary64 :
  Binary64.x_max (Binary64.pan_right Binary64.wide) = infinity /\
  Binary64.pan_left (Binary64.pan_right Binary64.wide)
  = Binary64.mk neg_infinity nan 0 1.
Proof. split; vm_compute; reflexivity. Qed.

(** C4, amended: in exact arithmetic pan-right (l) followed by pan-left
    (h), each with the delta of the bounds it finds, gives back the bounds
    it started from, whatever they are; in binary64 it does so, exactly, on
    the x range (0, 10). *)
Theorem pan_right_then_left_restores_bounds :
  (forall o : Options.t,
     let o' := after "h" (after "l" o) in
     x_min o' == x_min o /\ x_max o' == x_max o /\
     y_min o' = y_min o /\ y_max o' = y_max o) /\
  Binary64.pan_left (Binary64.pan_right Binary64.zero_to_ten)
  = Binary64.zero_to_ten.
Proof.
  split; [| vm_compute; reflexivity].
  intros o o'; subst o'.
  rewrite after_h, after_l.
  unfold x_extent, y_extent; view.
  repeat split; try reflexivity; ring.
Qed.

(** C5, as the claim states it, fails on the floats: on the narrow view,
    whose two extents are positive, each step rounds away and zoom-in
    followed by zoom-out gives back the very same bounds. *)
Lemma zoom_in_then_out_restores_narrow_view_in_binary64 :
  PrimFloat.ltb (Binary64.x_min Binary64.narrow)
                (Binary64.x_max Binary64.narrow) = true /\
  PrimFloat.ltb (Binary64.y_min Binary64.narrow)
                (Binary64.y_max Binary64.narrow) = true /\
  Binary64.zoom_out (Binary64.zoom_in Binary64.narrow) = Binary64.narrow.
Proof. repeat split; vm_compute; reflexivity. Qed.

(** C5, amended: in exact arithmetic, with positive extents, zoom-in (u)
    followed by zoom-out (n) does not give back the bounds: the extent of
    each axis is 0.96 times what it was, hence strictly smaller, and
    [x_min] and [y_min] have moved. *)
Theorem zoom_in_then_out_narrows (o : Options.t) :
  0 < x_extent o -> 0 < y_extent o ->
  let o' := after "n" (after "u" o) in
  x_extent o' == (96 # 100) * x_extent o /\ x_extent o' < x_extent o /\
  y_extent o' == (96 # 100) * y_extent o /\ y_extent o' < y_extent o /\
  ~ x_min o' == x_min o /\ ~ y_min o' == y_min o.
Proof.
  intros Hx Hy o'; subst o'.
  rewrite after_n, after_u.
  unfold x_extent, y_extent in *; view.
  repeat split; try ring; try lra.
Qed.

Lemma zoom_in_then_out_narrows_witness :
  x_extent (after "n" (after "u" sample_options))
  < x_extent sample_options.
Proof.
  apply (zoom_in_then_out_narrows sample_options); reflexivity.
Defined.

(** C10: zoom-in (u) and zoom-out (n) keep the midpoint of both axes. *)
Theorem zoom_preserves_midpoints (o : Options.t) :
  ((x_min (after "u" o) + x_max (after "u" o)) / 2 == (x_min o + x_max o) / 2 /\
   (y_min (after "u" o) + y_max (after "u" o)) / 2 == (y_min o + y_max o) / 2) /\
  ((x_min (after "n" o) + x_max (after "n" o)) / 2 == (x_min o + x_max o) / 2 /\
   (y_min (after "n" o) + y_max (after "n" o)) / 2 == (y_min o + y_max o) / 2).
Proof.
  rewrite after_u, after_n.
  unfold x_extent, y_extent; view.
  repeat split; field.
Qed.

(** ** What the commands leave alone *)

Lemma same_frame_refl (o : Options.t) : same_frame o o.
Proof. repeat split. Qed.

Lemma pan_left_frame (o : Options.t) : same_frame o (pan_left o).
Proof. repeat split. Qed.

Lemma pan_right_frame (o : Options.t) : same_frame o (pan_right o).
Proof. repeat split. Qed.

Lemma pan_up_frame (o : Options.t) : same_frame o (pan_up o).
Proof. repeat split. Qed.

Lemma pan_down_frame (o : Options.t) : same_frame o (pan_down o).
Proof. repeat split. Qed.

Lemma zoom_in_frame (o : Options.t) : same_frame o (zoom_in o).
Proof. repeat split. Qed.

Lemma zoom_out_frame (o : Options.t) : same_frame o (zoom_out o).
Proof. repeat split. Qed.

Lemma reset_view_frame (o : Options.t) : same_frame o (reset_view o).
Proof.
  unfold reset_view.
  destruct (initial_bounds o) as [[[x0 x1] y0] y1] eqn:E.
  repeat split; simpl; auto.
Qed.

Lemma after_frame (key_pressed : string) (o : Options.t) :
  same_frame o (after key_pressed o).
Proof.
  destruct (after_cases key_pressed o)
    as [E | [E | [E | [E | [E | [E | [E | E]]]]]]]; rewrite E.
  - apply pan_left_frame.
  - apply pan_right_frame.
  - apply pan_up_frame.
  - apply pan_down_frame.
  - apply zoom_in_frame.
  - apply zoom_out_frame.
  - apply reset_view_frame.
  - apply same_frame_refl.
Qed.

Lemma same_frame_trans (a b c : Options.t) :
  same_frame a b -> same_frame b c -> same_frame a c.
Proof.
  unfold same_frame; intros (?&?&?&?&?&?) (?&?&?&?&?&?).
  repeat split; congruence.
Qed.

Lemma after_keys_frame (keys : list string) (o : Options.t) :
  same_frame o (after_keys keys o).
Proof.
  revert o; induction keys as [| k keys IH]; intros o.
  - apply same_frame_refl.
  - apply same_frame_trans with (after (lower k) o).
    + apply after_frame.
    + apply (IH (after (lower k) o)).
Qed.

(** C6: h and l leave [y_min] and [y_max] as they are, j and k leave
    [x_min] and [x_max] as they are, and no key, nor any sequence of keys,
    changes the width or the height of the grid. *)
Theorem pan_keeps_other_axis_and_grid_is_fixed (o : Options.t) :
  (y_min (after "h" o) = y_min o /\ y_max (after "h" o) = y_max o) /\
  (y_min (after "l" o) = y_min o /\ y_max (after "l" o) = y_max o) /\
  (x_min (after "j" o) = x_min o /\ x_max (after "j" o) = x_max o) /\
  (x_min (after "k" o) = x_min o /\ x_max (after "k" o) = x_max o) /\
  (forall key_pressed c,
     width (fst (handle_key key_pressed o c)) = width o /\
     height (fst (handle_key key_pressed o c)) = height o) /\
  (forall keys,
     width (after_keys keys o) = width o /\
     height (after_keys keys o) = height o).
Proof.
  repeat split; try reflexivity.
  - rewrite handle_key_fst. apply (after_frame key_pressed o).
  - rewrite handle_key_fst. apply (after_frame key_pressed o).
  - apply (after_keys_frame keys o).
  - apply (after_keys_frame keys o).
Qed.

(** ** The ordering of the bounds *)

(** The options object that validation builds starts a session. *)
Lemma validate_at_start (series : MultiSeries.t) (kwargs : Kwargs)
    (o : Options.t) :
  validate_and_transform_options series kwargs = inr o -> at_start o.
Proof.
  unfold validate_and_transform_options, at_start.
  destruct (_ || _)%bool; [discriminate |].
  destruct (negb _); [discriminate |].
  destruct (default_range (MultiSeries.xs series)) as [dx0 dx1].
  destruct (default_range (MultiSeries.ys series)) as [dy0 dy1].
  intros H; injection H as <-; reflexivity.
Qed.

(** The sample options are those of [plot([0, 1, 2, 3], interactive=True)]. *)
Lemma sample_options_validated :
  MultiSeries.init None sample_ys = inr sample_series /\
  validate_and_transform_options sample_series sample_interactive
  = inr sample_options.
Proof. split; reflexivity. Qed.

(** Pan and zoom keep the sign of both extents, and reset brings back the
    initial ones: all along a session each extent has the sign it had at
    the start. *)
Lemma reachable_extent_sign (o : Options.t) :
  reachable o ->
  forall x0 x1 y0 y1, initial_bounds o = (x0, x1, y0, y1) ->
  (x_min o < x_max o <-> x0 < x1) /\ (y_min o < y_max o <-> y0 < y1).
Proof.
  induction 1 as [o Hv | key_pressed o Hr IH];
    intros x0 x1 y0 y1 Hi.
  - unfold at_start in Hv.
    rewrite Hv in Hi. injection Hi as <- <- <- <-. tauto.
  - destruct (after_frame key_pressed o) as (_ & _ & _ & _ & _ & Hf).
    rewrite Hf in Hi. specialize (IH _ _ _ _ Hi).
    destruct (after_cases key_pressed o)
      as [E | [E | [E | [E | [E | [E | [E | E]]]]]]]; rewrite E;
      try (view; split; [ etransitivity; [| apply (proj1 IH)]
                        | etransitivity; [| apply (proj2 IH)] ];
           split; intro; lra).
    unfold reset_view. rewrite Hi. simpl. tauto.
Qed.

(** C3: in a session, if the bounds are ordered ([x_min < x_max] and
    [y_min < y_max]) they are still ordered after any one key: a pan, a
    zoom, reset, quit, or a key that does nothing. *)
Theorem every_key_preserves_bounds_order (o : Options.t)
    (key_pressed : string) (c : bool) :
  reachable o -> bounds_ok o ->
  bounds_ok (fst (handle_key key_pressed o c)).
Proof.
  intros Hr [Hx Hy]. rewrite handle_key_fst. unfold bounds_ok.
  destruct (after_cases key_pressed o)
    as [E | [E | [E | [E | [E | [E | [E | E]]]]]]]; rewrite E;
    try (view; split; lra).
  destruct (initial_bounds o) as [[[x0 x1] y0] y1] eqn:Hi.
  destruct (reachable_extent_sign o Hr _ _ _ _ Hi) as [Sx Sy].
  unfold reset_view. rewrite Hi. simpl. tauto.
Qed.

Lemma every_key_preserves_bounds_order_witness :
  bounds_ok (fst (handle_key "r" (after "u" sample_options) true)).
Proof.
  apply every_key_preserves_bounds_order.
  - apply reach_key.
    apply reach_start. reflexivity.
  - unfold bounds_ok. vm_compute. split; reflexivity.
Defined.

(** ** Leaving the loop *)

Lemma is_quit_iff (key_pressed : string) :
  is_quit key_pressed = true <-> key_pressed = "q"%string \/ key_pressed = ESC.
Proof.
  unfold is_quit. rewrite orb_true_iff, !String.eqb_eq. tauto.
Qed.

Ltac key_case k s := destruct (String.eqb_spec k s) as [-> | ?].

(** [continue_looping] is cleared by q and escape, and by them only. *)
Lemma handle_key_snd (key_pressed : string) (o : Options.t) (c : bool) :
  snd (handle_key key_pressed o c) = if is_quit key_pressed then false else c.
Proof.
  unfold handle_key, is_quit.
  key_case key_pressed "h"%string; [reflexivity |].
  key_case key_pressed "l"%string; [reflexivity |].
  key_case key_pressed "j"%string; [reflexivity |].
  key_case key_pressed "k"%string; [reflexivity |].
  key_case key_pressed "u"%string; [reflexivity |].
  key_case key_pressed "n"%string; [reflexivity |].
  key_case key_pressed "r"%string; [reflexivity |].
  destruct (_ || _)%bool; reflexivity.
Qed.

Lemma handle_key_quit (key_pressed : string) (o : Options.t) (c : bool) :
  is_quit key_pressed = true -> handle_key key_pressed o c = (o, false).
Proof.
  intros H. apply is_quit_iff in H. destruct H as [-> | ->]; reflexivity.
Qed.

Lemma handle_key_other (key_pressed : string) (o : Options.t) (c : bool) :
  ~ In key_pressed recognized -> handle_key key_pressed o c = (o, c).
Proof.
  unfold recognized, handle_key. intros H.
  key_case key_pressed "h"%string; [simpl in H; tauto |].
  key_case key_pressed "l"%string; [simpl in H; tauto |].
  key_case key_pressed "j"%string; [simpl in H; tauto |].
  key_case key_pressed "k"%string; [simpl in H; tauto |].
  key_case key_pressed "u"%string; [simpl in H; tauto |].
  key_case key_pressed "n"%string; [simpl in H; tauto |].
  key_case key_pressed "r"%string; [simpl in H; tauto |].
  key_case key_pressed "q"%string; [simpl in H; tauto |].
  key_case key_pressed ESC; [simpl in H; tauto |].
  reflexivity.
Qed.

(** One iteration in interactive mode. *)
Lemma main_loop_cons (k : string) (keys : list string) (o : Options.t)
    (n : Z) :
  interactive o = true ->
  main_loop (k :: keys) o n =
  if is_quit (lower k)
  then (render o n ++ [HelpLine], Returned o (n + 1) keys)
  else
    let '(out', r) := main_loop keys (after (lower k) o) (n + 1) in
    ((render o n ++ [HelpLine]) ++ out', r).
Proof.
  intros Hi. cbn [main_loop]. rewrite Hi. cbn [negb].
  destruct (is_quit (lower k)) eqn:Q.
  - rewrite (handle_key_quit _ o true Q). reflexivity.
  - pose proof (handle_key_snd (lower k) o true) as Hs.
    pose proof (handle_key_fst (lower k) o true) as Hf.
    rewrite Q in Hs.
    destruct (handle_key (lower k) o true) as [o' c'].
    simpl in Hs, Hf. subst o' c'. reflexivity.
Qed.

Lemma main_loop_nil (o : Options.t) (n : Z) :
  interactive o = true ->
  main_loop [] o n = (render o n ++ [HelpLine], AwaitingKey o n).
Proof.
  intros Hi. cbn [main_loop]. rewrite Hi. reflexivity.
Qed.

(** Out of interactive mode the loop runs once and reads no key. *)
Lemma main_loop_once (keys : list string) (o : Options.t) (n : Z) :
  interactive o = false ->
  main_loop keys o n = (render o n, Returned o n keys).
Proof.
  intros Hi. destruct keys; cbn [main_loop]; rewrite Hi; reflexivity.
Qed.

Lemma after_interactive (key_pressed : string) (o : Options.t) :
  interactive (after key_pressed o) = interactive o.
Proof. apply (after_frame key_pressed o). Qed.

(** As long as no key is q or escape the loop goes on: with the keys all
    read it is waiting for the next one. *)
Lemma main_loop_waits (keys : list string) :
  forall (o : Options.t) (n : Z),
  interactive o = true ->
  Forall (fun k => is_quit (lower k) = false) keys ->
  snd (main_loop keys o n) =
  AwaitingKey (after_keys keys o) (n + Z.of_nat (List.length keys)).
Proof.
  induction keys as [| k keys IH]; intros o n Hi Hq.
  - rewrite main_loop_nil by assumption. simpl. f_equal. lia.
  - inversion Hq as [| ? ? Hk Hq']; subst.
    rewrite main_loop_cons by assumption. rewrite Hk.
    specialize (IH (after (lower k) o) (n + 1)%Z).
    rewrite after_interactive in IH. specialize (IH Hi Hq').
    destruct (main_loop keys (after (lower k) o) (n + 1)) as [out' r].
    simpl in IH |- *. rewrite IH. f_equal.
    rewrite Zpos_P_of_succ_nat. lia.
Qed.

(** The first q or escape ends the loop; the keys after it are not read. *)
Lemma main_loop_returns (pre : list string) :
  forall (k : string) (post : list string) (o : Options.t) (n : Z),
  interactive o = true ->
  Forall (fun k => is_quit (lower k) = false) pre ->
  is_quit (lower k) = true ->
  snd (main_loop (pre ++ k :: post) o n) =
  Returned (after_keys pre o) (n + Z.of_nat (List.length pre) + 1) post.
Proof.
  induction pre as [| p pre IH]; intros k post o n Hi Hq Hk.
  - simpl app. rewrite main_loop_cons by assumption. rewrite Hk.
    simpl. f_equal. lia.
  - inversion Hq as [| ? ? Hp Hq']; subst.
    simpl app. rewrite main_loop_cons by assumption. rewrite Hp.
    specialize (IH k post (after (lower p) o) (n + 1)%Z).
    rewrite after_interactive in IH. specialize (IH Hi Hq' Hk).
    destruct (main_loop (pre ++ k :: post) (after (lower p) o) (n + 1))
      as [out' r].
    simpl in IH |- *. rewrite IH. f_equal.
    rewrite Zpos_P_of_succ_nat. lia.
Qed.

(** C7: in interactive mode the loop is left exactly when the key read,
    once lowered, is q or escape, and that key leaves the options as they
    are; a key outside h, j, k, l, u, n, r, q, escape changes nothing and
    the loop goes on.  Over the keys of a run: without q or escape the loop
    ends up waiting for a key, and the first q or escape makes [plot]
    return, with the options the keys before it have led to. *)
Theorem loop_ends_exactly_on_q_or_escape (o : Options.t) :
  interactive o = true ->
  (forall raw,
     snd (handle_key (lower raw) o true) = false <->
     lower raw = "q"%string \/ lower raw = ESC) /\
  (forall raw c,
     lower raw = "q"%string \/ lower raw = ESC ->
     handle_key (lower raw) o c = (o, false)) /\
  (forall raw c,
     ~ In (lower raw) recognized ->
     handle_key (lower raw) o c = (o, c)) /\
  (forall keys n,
     Forall (fun k => is_quit (lower k) = false) keys ->
     snd (main_loop keys o n) =
     AwaitingKey (after_keys keys o) (n + Z.of_nat (List.length keys))) /\
  (forall pre k post n,
     Forall (fun k => is_quit (lower k) = false) pre ->
     is_quit (lower k) = true ->
     snd (main_loop (pre ++ k :: post) o n) =
     Returned (after_keys pre o) (n + Z.of_nat (List.length pre) + 1) post).
Proof.
  intros Hi.
  split; [| split; [| split; [| split]]].
  - intros raw. rewrite handle_key_snd, <- is_quit_iff.
    destruct (is_quit (lower raw)); split; congruence.
  - intros raw c H. apply handle_key_quit, is_quit_iff, H.
  - intros raw c H. apply handle_key_other, H.
  - intros keys n H. apply main_loop_waits; assumption.
  - intros pre k post n Hq Hk. apply main_loop_returns; assumption.
Qed.

Lemma loop_ends_exactly_on_q_or_escape_witness :
  snd (main_loop ["L"; "u"; "Q"; "h"]%string sample_options 0) =
  Returned (after_keys ["L"; "u"]%string sample_options) 3 ["h"%string].
Proof.
  apply (proj2 (proj2 (proj2 (proj2
           (loop_ends_exactly_on_q_or_escape sample_options eq_refl))))
           ["L"; "u"]%string "Q"%string ["h"%string] 0%Z).
  - repeat constructor.
  - reflexivity.
Defined.

(** ** Validation comes first *)

(** C8: when [plot] raises one of the validation errors nothing has been
    printed; the error comes from the normalisation of the series or from
    the validation of the options, and both are over before the first
    line. *)
Theorem validation_error_prints_nothing (ys : data) (xs : option data)
    (kwargs : Kwargs) (keys : list string) (out : list line) (e : exn) :
  plot ys xs kwargs keys = (out, inl e) ->
  out = [] /\
  (MultiSeries.init xs ys = inl e \/
   exists series, MultiSeries.init xs ys = inr series /\
                  validate_and_transform_options series kwargs = inl e).
Proof.
  unfold plot.
  destruct (MultiSeries.init xs ys) as [e1 | series].
  - intros H; injection H as <- <-. auto.
  - destruct (validate_and_transform_options series kwargs)
      as [e2 | options] eqn:V.
    + intros H; injection H as <- <-. split; [reflexivity |].
      right. exists series. auto.
    + destruct (main_loop keys options 0) as [out' r]. discriminate.
Qed.

Lemma validation_error_prints_nothing_witness :
  (@nil line) = [] /\
  (MultiSeries.init None sample_ys = inl LabelCountMismatch \/
   exists series, MultiSeries.init None sample_ys = inr series /\
     validate_and_transform_options series sample_two_labels =
     inl LabelCountMismatch).
Proof.
  apply (validation_error_prints_nothing sample_ys None sample_two_labels
           ["q"%string] (@nil line) LabelCountMismatch).
  reflexivity.
Defined.

(** With valid input the plot is printed: the title, if any, comes first
    and the loop prints at least the top border. *)
Lemma valid_input_prints (ys : data) (xs : option data) (kwargs : Kwargs)
    (keys : list string) (out : list line) (r : outcome) :
  plot ys xs kwargs keys = (out, inr r) -> out <> [].
Proof.
  unfold plot.
  destruct (MultiSeries.init xs ys) as [e1 | series]; [discriminate |].
  destruct (validate_and_transform_options series kwargs)
    as [e2 | options]; [discriminate |].
  destruct (main_loop keys options 0) as [out' r'] eqn:M.
  intros H; injection H as <- <-.
  destruct (title options); [discriminate |].
  simpl. intros ->.
  destruct keys; cbn [main_loop] in M;
    destruct (interactive options); cbn [negb] in M;
    unfold render in M; simpl in M.
  all: repeat match type of M with
         | context [let '(_, _) := ?x in _] => destruct x
         | context [if ?b then _ else _] => destruct b
         end; discriminate.
Qed.

(** ** The tick labeler *)

Module TickFacts.

Import TickLabeler.

(** The step found is at least the raw step, which is positive. *)
Lemma nice_step_ge (raw step : Q) :
  nice_step raw = Some step -> 0 < raw /\ raw <= step.
Proof.
  unfold nice_step. destruct (Qlt_le_dec 0 raw) as [Hpos | ]; [| discriminate].
  intros H. apply find_some in H. destruct H as [_ H].
  apply Qle_bool_iff in H. auto.
Qed.

(** The step found is 1, 2 or 5 times a power of ten. *)
Lemma nice_step_is_nice (raw step : Q) :
  nice_step raw = Some step ->
  exists (m : Q) (k : Z), In m [1; 2; 5] /\ step = m * pow10 k.
Proof.
  unfold nice_step. destruct (Qlt_le_dec 0 raw); [| discriminate].
  intros H. apply find_some in H. destruct H as [H _].
  unfold nice_numbers in H. apply in_flat_map in H.
  destruct H as (k & _ & [<- | [<- | [<- | []]]]).
  - exists 1, k. simpl. auto.
  - exists 2, k. simpl. auto.
  - exists 5, k. simpl. auto.
Qed.

Lemma span_pos (q : Q) : (0 < span q)%Z.
Proof.
  unfold span.
  pose proof (Z.log2_nonneg (Qnum q)).
  pose proof (Z.log2_nonneg (Zpos (Qden q))). lia.
Qed.

Lemma top_exponent (K : Z) : (0 <= K)%Z -> In K (exponents K).
Proof.
  intros HK. unfold exponents. apply in_map_iff.
  exists (Z.to_nat (2 * K)). split; [lia |].
  apply in_seq. lia.
Qed.

(** A positive rational is at most ten to the power of its span. *)
Lemma le_pow10_span (q : Q) : 0 < q -> q <= pow10 (span q).
Proof.
  intros Hq. pose proof (span_pos q) as HK.
  unfold pow10. rewrite <- Zpower_Qpower by lia.
  destruct q as [n d]. unfold Qlt in Hq. simpl in Hq.
  assert (Hn : (0 < n)%Z) by lia.
  unfold span in *. simpl Qnum in *. simpl Qden in *.
  pose proof (Z.log2_nonneg n) as Ln.
  pose proof (Z.log2_nonneg (Zpos d)) as Ld.
  destruct (Z.log2_spec n Hn) as [_ Hlt].
  assert (H2 : (2 ^ Z.succ (Z.log2 n) <= 10 ^ Z.succ (Z.log2 n))%Z)
    by (apply Z.pow_le_mono_l; lia).
  assert (H10 : (10 ^ Z.succ (Z.log2 n)
                 <= 10 ^ (Z.log2 n + Z.log2 (Zpos d) + 1))%Z)
    by (apply Z.pow_le_mono_r; lia).
  unfold Qle, inject_Z. cbn [Qnum Qden].
  set (P := (10 ^ (Z.log2 n + Z.log2 (Zpos d) + 1))%Z) in *.
  assert (HP : (n <= P)%Z) by lia.
  pose proof (Pos2Z.is_pos d). nia.
Qed.

(** Every positive raw step has a step. *)
Lemma nice_step_total (raw : Q) :
  0 < raw -> exists step, nice_step raw = Some step.
Proof.
  intros Hpos. unfold nice_step.
  destruct (Qlt_le_dec 0 raw) as [_ | Hle]; [| lra].
  destruct (find _ _) as [step |] eqn:F; [eauto |].
  exfalso.
  pose proof (find_none _ _ F (5 * pow10 (span raw))) as N.
  simpl in N.
  assert (Hin : In (5 * pow10 (span raw)) (nice_numbers (span raw))).
  { unfold nice_numbers. apply in_flat_map. exists (span raw). split.
    - apply top_exponent. pose proof (span_pos raw). lia.
    - simpl. auto. }
  specialize (N Hin).
  assert (Hle : raw <= 5 * pow10 (span raw)).
  { pose proof (le_pow10_span raw Hpos).
    assert (0 < pow10 (span raw)) by (apply Qpower_0_lt; reflexivity).
    lra. }
  apply Qle_bool_iff in Hle. congruence.
Qed.

Lemma first_tick_ge (range_min step : Q) :
  0 < step -> range_min <= first_tick range_min step.
Proof.
  intros Hs. unfold first_tick.
  assert (E : range_min == range_min / step * step) by (field; lra).
  rewrite E at 1.
  apply Qmult_le_r; [assumption | apply Qle_ceiling].
Qed.

(** The positions are the multiples of the step from the first tick on that
    do not pass [range_max], all of them. *)
Lemma positions_spec (range_min range_max step p : Q) :
  0 < step ->
  In p (positions range_min range_max step) <->
  exists i : nat,
    p = first_tick range_min step + inject_Z (Z.of_nat i) * step /\
    p <= range_max.
Proof.
  intros Hs. unfold positions. cbv zeta. rewrite in_map_iff.
  set (first := first_tick range_min step).
  set (q := (range_max - first) / step).
  assert (Eq : q * step == range_max - first) by (unfold q; field; lra).
  split.
  - intros (i & <- & Hi). exists i. split; [reflexivity |].
    apply in_seq in Hi. unfold tick_count in Hi. cbv zeta in Hi.
    fold first in Hi. fold q in Hi.
    destruct (Qle_bool first range_max); [| simpl in Hi; lia].
    assert (Hz : (Z.of_nat i <= Qfloor q)%Z) by lia.
    assert (Hi' : inject_Z (Z.of_nat i) <= inject_Z (Qfloor q))
      by (unfold Qle, inject_Z; cbn [Qnum Qden]; lia).
    pose proof (Qfloor_le q) as Hfl.
    assert (inject_Z (Z.of_nat i) * step <= q * step)
      by (apply Qmult_le_compat_r; lra).
    lra.
  - intros (i & -> & Hle). exists i. split; [reflexivity |].
    apply in_seq. split; [lia |].
    assert (H0 : 0 <= inject_Z (Z.of_nat i))
      by (unfold Qle, inject_Z; cbn [Qnum Qden]; lia).
    assert (0 <= inject_Z (Z.of_nat i) * step)
      by (apply Qmult_le_0_compat; lra).
    unfold tick_count. cbv zeta. fold first. fold q.
    assert (Hf : Qle_bool first range_max = true)
      by (apply Qle_bool_iff; lra).
    rewrite Hf.
    assert (Hq : inject_Z (Z.of_nat i) <= q).
    { unfold q. apply Qle_shift_div_l; [assumption | lra]. }
    apply Qfloor_resp_le in Hq. rewrite Qfloor_Z in Hq. lia.
Qed.

Lemma raw_step_times_slots (range_min range_max : Q) (slot_count : nat) :
  0 < raw_step range_min range_max slot_count ->
  range_max - range_min ==
  raw_step range_min range_max slot_count * inject_Z (Z.of_nat slot_count).
Proof.
  unfold raw_step. intros H.
  assert (Hn : ~ inject_Z (Z.of_nat slot_count) == 0).
  { intros E. rewrite E in H. unfold Qdiv in H.
    assert (Z : range_max - range_min == range_max - range_min) by reflexivity.
    assert (I : / 0 == 0) by reflexivity.
    rewrite I in H. lra. }
  field. exact Hn.
Qed.

Lemma tick_count_le (range_min range_max step : Q) (slot_count : nat) :
  0 < raw_step range_min range_max slot_count ->
  raw_step range_min range_max slot_count <= step ->
  (tick_count range_min range_max step <= slot_count + 1)%nat.
Proof.
  intros Hraw Hstep. unfold tick_count.
  destruct (Qle_bool _ _); [| simpl; lia].
  assert (Hs : 0 < step) by lra.
  pose proof (first_tick_ge range_min step Hs) as Hf.
  pose proof (raw_step_times_slots _ _ _ Hraw) as E.
  assert (Hq : (range_max - first_tick range_min step) / step
               <= inject_Z (Z.of_nat slot_count)).
  { apply Qle_shift_div_r; [assumption |].
    assert (0 <= inject_Z (Z.of_nat slot_count))
      by (unfold Qle, inject_Z; cbn [Qnum Qden]; lia).
    assert (raw_step range_min range_max slot_count
            * inject_Z (Z.of_nat slot_count)
            <= step * inject_Z (Z.of_nat slot_count))
      by (apply Qmult_le_compat_r; assumption).
    lra. }
  apply Qfloor_resp_le in Hq. rewrite Qfloor_Z in Hq. lia.
Qed.

End TickFacts.

(** C9, as the claim states it, fails: on the range (0, 100) with 10
    slots there are 11 ticks. *)
Lemma ticks_can_exceed_slot_count :
  ~ (forall (range_min range_max : Q) (slot_count : nat),
       (List.length (TickLabeler.ticks range_min range_max slot_count)
        <= slot_count)%nat).
Proof.
  intros H. specialize (H 0 100 10%nat).
  assert (E : List.length (TickLabeler.ticks 0 100 10) = 11%nat)
    by (vm_compute; reflexivity).
  rewrite E in H. lia.
Qed.

(** C9, amended: for every range and every slot count there are at most
    [slot_count + 1] ticks; on the range (0, 100) with 10 slots the step is
    10 and the ticks are 0, 10, 20, ..., 100. *)
Theorem ticks_at_most_slot_count_plus_one :
  (forall (range_min range_max : Q) (slot_count : nat),
     (List.length (TickLabeler.ticks range_min range_max slot_count)
      <= slot_count + 1)%nat) /\
  option_map Qred (TickLabeler.nice_step (TickLabeler.raw_step 0 100 10))
  = Some 10 /\
  map Qred (TickLabeler.ticks 0 100 10)
  = [0; 10; 20; 30; 40; 50; 60; 70; 80; 90; 100].
Proof.
  split; [| split; vm_compute; reflexivity].
  intros range_min range_max slot_count.
  unfold TickLabeler.ticks.
  destruct (TickLabeler.nice_step _) as [step |] eqn:S; [| simpl; lia].
  apply TickFacts.nice_step_ge in S. destruct S as [Hraw Hstep].
  unfold TickLabeler.positions. rewrite length_map, length_seq.
  apply TickFacts.tick_count_le; assumption.
Qed.

(** * Further properties of the key chain *)

(** ** Pans *)

(** X1: the pans of one axis undo each other in both orders: l after h,
    k after j and j after k give back the four bounds (h after l is C4). *)
Theorem pans_undo_each_other (o : Options.t) :
  (x_min (after "l" (after "h" o)) == x_min o /\
   x_max (after "l" (after "h" o)) == x_max o /\
   y_min (after "l" (after "h" o)) = y_min o /\
   y_max (after "l" (after "h" o)) = y_max o) /\
  (y_min (after "k" (after "j" o)) == y_min o /\
   y_max (after "k" (after "j" o)) == y_max o /\
   x_min (after "k" (after "j" o)) = x_min o /\
   x_max (after "k" (after "j" o)) = x_max o) /\
  (y_min (after "j" (after "k" o)) == y_min o /\
   y_max (after "j" (after "k" o)) == y_max o /\
   x_min (after "j" (after "k" o)) = x_min o /\
   x_max (after "j" (after "k" o)) = x_max o).
Proof.
  rewrite !after_h, !after_l, !after_j, !after_k.
  view. repeat split; try reflexivity; ring.
Qed.

Lemma pan_extents (o : Options.t) :
  (x_extent (pan_left o) == x_extent o /\ y_extent (pan_left o) == y_extent o) /\
  (x_extent (pan_right o) == x_extent o /\ y_extent (pan_right o) == y_extent o) /\
  (x_extent (pan_up o) == x_extent o /\ y_extent (pan_up o) == y_extent o) /\
  (x_extent (pan_down o) == x_extent o /\ y_extent (pan_down o) == y_extent o).
Proof.
  unfold x_extent, y_extent. view. repeat split; ring.
Qed.

(** X2: in exact arithmetic a pan never changes the scale: after h, l, j or
    k both extents are what they were. *)
Theorem pan_keeps_both_extents (o : Options.t) :
  (x_extent (after "h" o) == x_extent o /\ y_extent (after "h" o) == y_extent o) /\
  (x_extent (after "l" o) == x_extent o /\ y_extent (after "l" o) == y_extent o) /\
  (x_extent (after "j" o) == x_extent o /\ y_extent (after "j" o) == y_extent o) /\
  (x_extent (after "k" o) == x_extent o /\ y_extent (after "k" o) == y_extent o).
Proof.
  rewrite after_h, after_l, after_j, after_k. apply pan_extents.
Qed.

(** X3: a horizontal and a vertical pan can be exchanged: the options are
    the same either way. *)
Theorem horizontal_and_vertical_pans_commute (o : Options.t) :
  after "h" (after "j" o) = after "j" (after "h" o) /\
  after "h" (after "k" o) = after "k" (after "h" o) /\
  after "l" (after "j" o) = after "j" (after "l" o) /\
  after "l" (after "k" o) = after "k" (after "l" o).
Proof.
  rewrite !after_h, !after_l, !after_j, !after_k.
  repeat split; reflexivity.
Qed.

Lemma after_keys_cons (k : string) (keys : list string) (o : Options.t) :
  after_keys (k :: keys) o = after_keys keys (after (lower k) o).
Proof. reflexivity. Qed.

Lemma inject_Z_succ (n : nat) :
  inject_Z (Z.of_nat (S n)) == inject_Z (Z.of_nat n) + 1.
Proof.
  rewrite Nat2Z.inj_succ. unfold Z.succ. rewrite inject_Z_plus. reflexivity.
Qed.

(** X4: in exact arithmetic, pressing one pan key [n] times moves both ends
    of its axis by [n] times one tenth of the extent the axis had at the
    start: the delta is computed anew at every press, but a pan keeps the
    extent. *)
Theorem repeated_pan_is_linear (n : nat) (o : Options.t) :
  let m := inject_Z (Z.of_nat n) in
  let dx := (1 # 10) * (x_max o - x_min o) in
  let dy := (1 # 10) * (y_max o - y_min o) in
  (x_min (after_keys (repeat "l"%string n) o) == x_min o + m * dx /\
   x_max (after_keys (repeat "l"%string n) o) == x_max o + m * dx) /\
  (x_min (after_keys (repeat "h"%string n) o) == x_min o - m * dx /\
   x_max (after_keys (repeat "h"%string n) o) == x_max o - m * dx) /\
  (y_min (after_keys (repeat "k"%string n) o) == y_min o + m * dy /\
   y_max (after_keys (repeat "k"%string n) o) == y_max o + m * dy) /\
  (y_min (after_keys (repeat "j"%string n) o) == y_min o - m * dy /\
   y_max (after_keys (repeat "j"%string n) o) == y_max o - m * dy).
Proof.
  revert o. induction n as [| n IH]; intros o m dx dy.
  - subst m dx dy. simpl. repeat split; ring.
  - subst m dx dy. cbn [repeat]. rewrite !after_keys_cons.
    change (lower "l") with "l"%string. change (lower "h") with "h"%string.
    change (lower "k") with "k"%string. change (lower "j") with "j"%string.
    rewrite after_l, after_h, after_k, after_j.
    destruct (IH (pan_right o)) as ((A1 & A2) & _).
    destruct (IH (pan_left o)) as (_ & (B1 & B2) & _).
    destruct (IH (pan_down o)) as (_ & _ & (C1 & C2) & _).
    destruct (IH (pan_up o)) as (_ & _ & _ & (D1 & D2)).
    cbv zeta in A1, A2, B1, B2, C1, C2, D1, D2.
    rewrite A1, A2, B1, B2, C1, C2, D1, D2, inject_Z_succ.
    view. repeat split; ring.
Qed.

(** ** Zooms *)

Lemma zoom_extents (o : Options.t) :
  (x_extent (zoom_in o) == (4 # 5) * x_extent o /\
   y_extent (zoom_in o) == (4 # 5) * y_extent o) /\
  (x_extent (zoom_out o) == (6 # 5) * x_extent o /\
   y_extent (zoom_out o) == (6 # 5) * y_extent o).
Proof.
  unfold x_extent, y_extent. view. repeat split; ring.
Qed.

Lemma Qpower_succ (a : Q) (n : nat) :
  ~ a == 0 -> a ^ Z.of_nat (S n) == a ^ Z.of_nat n * a.
Proof.
  intros Ha. rewrite Nat2Z.inj_succ. unfold Z.succ.
  rewrite Qpower_plus by assumption. reflexivity.
Qed.

(** X5: in exact arithmetic [n] presses of u scale both extents by
    (4/5)^n, and a range that is not empty never becomes empty or inverted,
    however often u is pressed. *)
Theorem repeated_zoom_in_scales_by_power (n : nat) (o : Options.t) :
  x_extent (after_keys (repeat "u"%string n) o)
    == (4 # 5) ^ Z.of_nat n * x_extent o /\
  y_extent (after_keys (repeat "u"%string n) o)
    == (4 # 5) ^ Z.of_nat n * y_extent o /\
  (bounds_ok o -> bounds_ok (after_keys (repeat "u"%string n) o)).
Proof.
  assert (E : forall n o,
    x_extent (after_keys (repeat "u"%string n) o)
      == (4 # 5) ^ Z.of_nat n * x_extent o /\
    y_extent (after_keys (repeat "u"%string n) o)
      == (4 # 5) ^ Z.of_nat n * y_extent o).
  { clear. induction n as [| n IH]; intros o.
    - simpl. split; ring.
    - cbn [repeat]. rewrite after_keys_cons.
      change (lower "u") with "u"%string. rewrite after_u.
      destruct (IH (zoom_in o)) as [Hx Hy].
      destruct (zoom_extents o) as ((Zx & Zy) & _).
      rewrite Hx, Hy, Zx, Zy, Qpower_succ by (intros H; discriminate H).
      split; ring. }
  destruct (E n o) as [Hx Hy]. repeat split; try assumption.
  - destruct H as [Bx _].
    assert (P : 0 < (4 # 5) ^ Z.of_nat n) by (apply Qpower_0_lt; reflexivity).
    assert (X : 0 < x_extent o) by (unfold x_extent; lra).
    pose proof (Qmult_lt_0_compat _ _ P X) as M.
    rewrite <- Hx in M. unfold x_extent in M. lra.
  - destruct H as [_ By].
    assert (P : 0 < (4 # 5) ^ Z.of_nat n) by (apply Qpower_0_lt; reflexivity).
    assert (Y : 0 < y_extent o) by (unfold y_extent; lra).
    pose proof (Qmult_lt_0_compat _ _ P Y) as M.
    rewrite <- Hy in M. unfold y_extent in M. lra.
Qed.

Lemma repeated_zoom_in_scales_by_power_witness :
  bounds_ok (after_keys (repeat "u"%string 3) sample_options).
Proof.
  apply (proj2 (proj2 (repeated_zoom_in_scales_by_power 3 sample_options))).
  unfold bounds_ok. vm_compute. split; reflexivity.
Defined.

(** X6: in exact arithmetic [n] presses of n scale both extents by
    (6/5)^n. *)
Theorem repeated_zoom_out_scales_by_power (n : nat) (o : Options.t) :
  x_extent (after_keys (repeat "n"%string n) o)
    == (6 # 5) ^ Z.of_nat n * x_extent o /\
  y_extent (after_keys (repeat "n"%string n) o)
    == (6 # 5) ^ Z.of_nat n * y_extent o.
Proof.
  revert o. induction n as [| n IH]; intros o.
  - simpl. split; ring.
  - cbn [repeat]. rewrite after_keys_cons.
    change (lower "n") with "n"%string. rewrite after_n.
    destruct (IH (zoom_out o)) as [Hx Hy].
    destruct (zoom_extents o) as (_ & (Zx & Zy)).
    rewrite Hx, Hy, Zx, Zy, Qpower_succ by (intros H; discriminate H).
    split; ring.
Qed.

(** X7: zoom-in and zoom-out can be exchanged: u after n gives the same
    four bounds as n after u. *)
Theorem zoom_in_and_zoom_out_commute (o : Options.t) :
  x_min (after "u" (after "n" o)) == x_min (after "n" (after "u" o)) /\
  x_max (after "u" (after "n" o)) == x_max (after "n" (after "u" o)) /\
  y_min (after "u" (after "n" o)) == y_min (after "n" (after "u" o)) /\
  y_max (after "u" (after "n" o)) == y_max (after "n" (after "u" o)).
Proof.
  rewrite !after_u, !after_n. view. repeat split; ring.
Qed.

(** X8: in exact arithmetic no sequence of zoom keys moves the centre of
    the view: after any keys that are all u or n (in either case) the sums
    [x_min + x_max] and [y_min + y_max] are what they were. *)
Theorem zoom_sequences_keep_centre (keys : list string) (o : Options.t) :
  Forall (fun k => lower k = "u"%string \/ lower k = "n"%string) keys ->
  x_min (after_keys keys o) + x_max (after_keys keys o) == x_min o + x_max o /\
  y_min (after_keys keys o) + y_max (after_keys keys o) == y_min o + y_max o.
Proof.
  revert o. induction keys as [| k keys IH]; intros o Hk.
  - simpl. split; reflexivity.
  - inversion Hk as [| ? ? Hu Hrest]; subst.
    rewrite after_keys_cons.
    destruct (IH (after (lower k) o) Hrest) as [Hx Hy].
    rewrite Hx, Hy.
    destruct Hu as [-> | ->]; [rewrite after_u | rewrite after_n];
      view; split; ring.
Qed.

Lemma zoom_sequences_keep_centre_witness :
  x_min (after_keys ["u"; "N"; "U"]%string sample_options)
  + x_max (after_keys ["u"; "N"; "U"]%string sample_options)
  == x_min sample_options + x_max sample_options.
Proof.
  apply (zoom_sequences_keep_centre ["u"; "N"; "U"]%string sample_options).
  repeat first
    [ apply Forall_nil
    | apply Forall_cons; [first [left; reflexivity | right; reflexivity] |] ].
Defined.

(** X9: in exact arithmetic pan and zoom keys neither break nor repair the
    order of the bounds: for every key but r, [x_min < x_max] holds after
    the key exactly when it held before, and likewise on the y axis. *)
Theorem pan_zoom_keep_order_both_ways (key_pressed : string)
    (o : Options.t) :
  key_pressed <> "r"%string ->
  (x_min (after key_pressed o) < x_max (after key_pressed o)
   <-> x_min o < x_max o) /\
  (y_min (after key_pressed o) < y_max (after key_pressed o)
   <-> y_min o < y_max o).
Proof.
  intros Hr. unfold after, handle_key.
  key_case key_pressed "h"%string; [cbn [fst]; view; split; split; intro; lra |].
  key_case key_pressed "l"%string; [cbn [fst]; view; split; split; intro; lra |].
  key_case key_pressed "j"%string; [cbn [fst]; view; split; split; intro; lra |].
  key_case key_pressed "k"%string; [cbn [fst]; view; split; split; intro; lra |].
  key_case key_pressed "u"%string; [cbn [fst]; view; split; split; intro; lra |].
  key_case key_pressed "n"%string; [cbn [fst]; view; split; split; intro; lra |].
  key_case key_pressed "r"%string; [congruence |].
  destruct (_ || _)%bool; cbn [fst]; tauto.
Qed.

Lemma pan_zoom_keep_order_both_ways_witness :
  x_min (after "u" sample_options) < x_max (after "u" sample_options).
Proof.
  apply (pan_zoom_keep_order_both_ways "u" sample_options).
  - discriminate.
  - reflexivity.
Defined.

(** X10: a key that is not exactly one character long (the empty string, an
    escape sequence delivered as one string) changes nothing and does not
    end the loop. *)
Theorem keys_of_other_lengths_do_nothing (key_pressed : string)
    (o : Options.t) (c : bool) :
  String.length key_pressed <> 1%nat ->
  handle_key key_pressed o c = (o, c).
Proof.
  intros Hl. apply handle_key_other. intros Hin. apply Hl.
  unfold recognized in Hin. simpl in Hin.
  repeat (destruct Hin as [<- | Hin]; [reflexivity |]).
  contradiction.
Qed.

Lemma keys_of_other_lengths_do_nothing_witness :
  handle_key "[A" sample_options true = (sample_options, true).
Proof.
  apply keys_of_other_lengths_do_nothing. simpl. discriminate.
Defined.

(** * Further properties of the loop *)

Lemma count_app (p : line -> bool) (a b : list line) :
  count p (a ++ b) = (count p a + count p b)%nat.
Proof. unfold count. rewrite filter_app, length_app. reflexivity. Qed.

Lemma count_rows_none (p : line -> bool) (o : Options.t) (l : list Z) :
  (forall i, p (PlotRow i o) = false) ->
  count p (map (fun i => PlotRow i o) l) = O.
Proof.
  intros Hp. unfold count. induction l as [| i l IH]; simpl.
  - reflexivity.
  - rewrite Hp. exact IH.
Qed.

Lemma count_rows_printed (o : Options.t) (l : list Z) :
  count is_printed (map (fun i => PlotRow i o) l) = List.length l.
Proof.
  unfold count. induction l as [| i l IH]; simpl; [reflexivity |].
  f_equal. exact IH.
Qed.

Lemma count_zero_not_in (p : line -> bool) (out : list line) (x : line) :
  count p out = O -> p x = true -> ~ In x out.
Proof.
  unfold count. intros Hc Hp Hin.
  assert (Hf : In x (filter p out)) by (apply filter_In; auto).
  destruct (filter p out); [exact Hf | discriminate].
Qed.

Lemma render_counts (o : Options.t) (n : Z) :
  count is_top (render o n) = 1%nat /\
  count is_help (render o n) = O /\
  count is_title (render o n) = O /\
  count is_erase (render o n) = (if (n >? 0)%Z then 1 else 0)%nat.
Proof.
  unfold render. rewrite !count_app.
  rewrite !count_rows_none by reflexivity.
  destruct (n >? 0)%Z, (legend_labels o); repeat split; reflexivity.
Qed.

Lemma main_loop_cons_go (k : string) (keys : list string) (o : Options.t)
    (n : Z) :
  interactive o = true -> is_quit (lower k) = false ->
  fst (main_loop (k :: keys) o n) =
  (render o n ++ [HelpLine])
  ++ fst (main_loop keys (after (lower k) o) (n + 1)) /\
  snd (main_loop (k :: keys) o n) =
  snd (main_loop keys (after (lower k) o) (n + 1)).
Proof.
  intros Hi Hq. rewrite main_loop_cons by assumption. rewrite Hq.
  destruct (main_loop keys (after (lower k) o) (n + 1)). split; reflexivity.
Qed.

Lemma main_loop_cons_quit (k : string) (keys : list string) (o : Options.t)
    (n : Z) :
  interactive o = true -> is_quit (lower k) = true ->
  main_loop (k :: keys) o n =
  (render o n ++ [HelpLine], Returned o (n + 1) keys).
Proof.
  intros Hi Hq. rewrite main_loop_cons by assumption. rewrite Hq. reflexivity.
Qed.

(** X11: the keys are read without regard to case: two runs whose keys
    agree once lowered print the same lines, end with the same options and
    both return or both wait. *)
Theorem keys_are_case_insensitive (keys keys' : list string) :
  Forall2 (fun k k' => lower k = lower k') keys keys' ->
  forall (o : Options.t) (n : Z),
  fst (main_loop keys o n) = fst (main_loop keys' o n) /\
  final_options (snd (main_loop keys o n))
  = final_options (snd (main_loop keys' o n)) /\
  has_returned (snd (main_loop keys o n))
  = has_returned (snd (main_loop keys' o n)).
Proof.
  induction 1 as [| k k' keys keys' Hk Hrest IH]; intros o n.
  - repeat split.
  - destruct (interactive o) eqn:Hi.
    + destruct (is_quit (lower k)) eqn:Hq.
      * rewrite (main_loop_cons_quit k) by assumption.
        rewrite (main_loop_cons_quit k') by (rewrite <- ?Hk; assumption).
        repeat split.
      * destruct (main_loop_cons_go k keys o n Hi Hq) as [F S].
        assert (Hq' : is_quit (lower k') = false) by (rewrite <- Hk; exact Hq).
        destruct (main_loop_cons_go k' keys' o n Hi Hq') as [F' S'].
        rewrite F, S, F', S', <- Hk.
        destruct (IH (after (lower k) o) (n + 1)%Z) as (A & B & C).
        rewrite A, B, C. repeat split.
    + rewrite !main_loop_once by assumption. repeat split.
Qed.

Lemma keys_are_case_insensitive_witness :
  fst (main_loop ["H"; "U"; "Q"]%string sample_options 0)
  = fst (main_loop ["h"; "u"; "q"]%string sample_options 0).
Proof.
  apply (keys_are_case_insensitive ["H"; "U"; "Q"]%string
           ["h"; "u"; "q"]%string).
  repeat constructor.
Defined.

(** X12: q and escape print nothing: what a run has printed when it
    returns is what it had printed while it was waiting for that key. *)
Theorem quit_prints_nothing_more (pre : list string) :
  forall (k : string) (post : list string) (o : Options.t) (n : Z),
  interactive o = true ->
  Forall (fun k => is_quit (lower k) = false) pre ->
  is_quit (lower k) = true ->
  fst (main_loop (pre ++ k :: post) o n) = fst (main_loop pre o n).
Proof.
  induction pre as [| p pre IH]; intros k post o n Hi Hpre Hk.
  - simpl app. rewrite main_loop_cons_quit, main_loop_nil by assumption.
    reflexivity.
  - inversion Hpre as [| ? ? Hp Hrest]; subst. simpl app.
    destruct (main_loop_cons_go p (pre ++ k :: post) o n Hi Hp) as [F _].
    destruct (main_loop_cons_go p pre o n Hi Hp) as [F' _].
    rewrite F, F'. f_equal.
    apply IH; [rewrite after_interactive |  |]; assumption.
Qed.

Lemma quit_prints_nothing_more_witness :
  fst (main_loop (["l"%string; "u"%string] ++ "q"%string :: ["h"%string])
         sample_options 0)
  = fst (main_loop ["l"; "u"]%string sample_options 0).
Proof.
  apply quit_prints_nothing_more.
  - reflexivity.
  - repeat constructor.
  - reflexivity.
Defined.

Lemma main_loop_counts (keys : list string) :
  forall (o : Options.t) (n : Z),
  interactive o = true -> (0 <= n)%Z ->
  Forall (fun k => is_quit (lower k) = false) keys ->
  count is_top (fst (main_loop keys o n)) = S (List.length keys) /\
  count is_help (fst (main_loop keys o n)) = S (List.length keys) /\
  count is_erase (fst (main_loop keys o n))
  = (List.length keys + if (n >? 0)%Z then 1 else 0)%nat.
Proof.
  assert (A1 : count is_top [HelpLine] = 0%nat) by reflexivity.
  assert (A2 : count is_help [HelpLine] = 1%nat) by reflexivity.
  assert (A3 : count is_erase [HelpLine] = 0%nat) by reflexivity.
  induction keys as [| k keys IH]; intros o n Hi Hn Hq;
    destruct (render_counts o n) as (T & H & _ & E).
  - rewrite main_loop_nil by assumption. cbn [fst].
    rewrite !count_app, T, H, E, A1, A2, A3. cbn [List.length].
    destruct (n >? 0)%Z; repeat split; lia.
  - inversion Hq as [| ? ? Hk Hrest]; subst.
    destruct (main_loop_cons_go k keys o n Hi Hk) as [F _]. rewrite F.
    assert (Hi' : interactive (after (lower k) o) = true)
      by (rewrite after_interactive; assumption).
    destruct (IH (after (lower k) o) (n + 1)%Z Hi' ltac:(lia) Hrest)
      as (T' & H' & E').
    assert (G : (n + 1 >? 0)%Z = true) by lia.
    rewrite G in E'.
    rewrite !count_app, T, H, E, T', H', E', A1, A2, A3. cbn [List.length].
    destruct (n >? 0)%Z; repeat split; lia.
Qed.

(** X13: in interactive mode every key that does not quit costs exactly one
    redraw: after [m] such keys the plot has been drawn [m + 1] times, the
    help line printed [m + 1] times, and the previous plot erased [m]
    times; the first drawing erases nothing. *)
Theorem each_key_redraws_once (keys : list string) (o : Options.t) :
  interactive o = true ->
  Forall (fun k => is_quit (lower k) = false) keys ->
  count is_top (fst (main_loop keys o 0)) = S (List.length keys) /\
  count is_help (fst (main_loop keys o 0)) = S (List.length keys) /\
  count is_erase (fst (main_loop keys o 0)) = List.length keys.
Proof.
  intros Hi Hq.
  destruct (main_loop_counts keys o 0%Z Hi ltac:(lia) Hq) as (T & H & E).
  cbn [Z.gtb Z.compare] in E. rewrite Nat.add_0_r in E. auto.
Qed.

Lemma each_key_redraws_once_witness :
  count is_erase (fst (main_loop ["l"; "x"; "u"]%string sample_options 0))
  = 3%nat.
Proof.
  apply (each_key_redraws_once ["l"; "x"; "u"]%string sample_options).
  - reflexivity.
  - repeat constructor.
Defined.

Lemma render_printed (o : Options.t) (n : Z) :
  count is_printed (render o n) =
  (Z.to_nat (height o) + 3
   + match legend_labels o with Some _ => 1 | None => 0 end)%nat.
Proof.
  unfold render. rewrite !count_app, count_rows_printed.
  unfold range. rewrite length_map, length_seq.
  destruct (n >? 0)%Z, (legend_labels o);
    cbn [count filter is_printed is_erase negb List.length]; lia.
Qed.

(** X14: without a legend a redraw erases exactly what the iteration before
    it has printed: the line count passed to the eraser, [height + 4], is
    the number of [print] calls of one interactive iteration (the two
    borders, [height] rows, the x axis and the help line), and no key
    changes it. *)
Theorem erase_matches_previous_frame (key_pressed : string)
    (o : Options.t) (n : Z) :
  interactive o = true -> legend_labels o = None ->
  (0 <= height o)%Z -> (0 <= n)%Z ->
  hd_error (render (after key_pressed o) (n + 1)) =
  Some (EraseLines
          (Z.of_nat (count is_printed (render o n ++ [HelpLine])))).
Proof.
  intros Hi Hl Hh Hn.
  rewrite count_app, render_printed, Hl.
  destruct (after_frame key_pressed o) as (_ & Fh & _ & _ & Fl & _).
  unfold render. rewrite Fh, Fl, Hl.
  assert (G : (n + 1 >? 0)%Z = true) by lia. rewrite G.
  cbn [app hd_error count filter is_printed is_erase negb List.length].
  do 2 f_equal. lia.
Qed.

Lemma erase_matches_previous_frame_witness :
  hd_error (render (after "u" sample_options) (0 + 1)) =
  Some (EraseLines
          (Z.of_nat (count is_printed (render sample_options 0 ++ [HelpLine])))).
Proof.
  apply erase_matches_previous_frame.
  - reflexivity.
  - reflexivity.
  - simpl. lia.
  - lia.
Defined.

(** X15: out of interactive mode the loop runs once: the plot is drawn once
    with nothing erased and no help line, no key is read, and the options
    are the ones the loop was entered with. *)
Theorem non_interactive_draws_once (keys : list string) (o : Options.t) :
  interactive o = false ->
  snd (main_loop keys o 0) = Returned o 0 keys /\
  count is_top (fst (main_loop keys o 0)) = 1%nat /\
  count is_erase (fst (main_loop keys o 0)) = 0%nat /\
  count is_help (fst (main_loop keys o 0)) = 0%nat.
Proof.
  intros Hi. rewrite main_loop_once by assumption. cbn [fst snd].
  destruct (render_counts o 0) as (T & H & _ & E).
  repeat split; assumption.
Qed.

Lemma non_interactive_draws_once_witness :
  snd (main_loop ["q"%string] (Options.mk 0 3 0 3 60 17 false None None (0, 3, 0, 3)) 0)
  = Returned (Options.mk 0 3 0 3 60 17 false None None (0, 3, 0, 3)) 0
      ["q"%string].
Proof.
  apply (non_interactive_draws_once ["q"%string]). reflexivity.
Defined.

Lemma main_loop_no_title (keys : list string) :
  forall (o : Options.t) (n : Z),
  count is_title (fst (main_loop keys o n)) = O.
Proof.
  assert (A : count is_title [HelpLine] = O) by reflexivity.
  induction keys as [| k keys IH]; intros o n;
    destruct (render_counts o n) as (_ & _ & T & _);
    destruct (interactive o) eqn:Hi.
  - rewrite main_loop_nil by assumption. cbn [fst].
    rewrite count_app, T, A. reflexivity.
  - rewrite main_loop_once by assumption. exact T.
  - destruct (is_quit (lower k)) eqn:Hq.
    + rewrite main_loop_cons_quit by assumption. cbn [fst].
      rewrite count_app, T, A. reflexivity.
    + destruct (main_loop_cons_go k keys o n Hi Hq) as [F _]. rewrite F.
      rewrite !count_app, T, A, IH. reflexivity.
  - rewrite main_loop_once by assumption. exact T.
Qed.

(** X16: the title is printed once, before anything else, and never again:
    in what a successful call of [plot] prints there is at most one title
    line, and a title line that is there is the first line.  Redraws leave
    it alone. *)
Theorem title_is_printed_once_and_first (ys : data) (xs : option data)
    (kwargs : Kwargs) (keys : list string) (out : list line) (r : outcome) :
  plot ys xs kwargs keys = (out, inr r) ->
  (count is_title out <= 1)%nat /\
  (forall t w, In (TitleLine t w) out -> hd_error out = Some (TitleLine t w)).
Proof.
  unfold plot.
  destruct (MultiSeries.init xs ys) as [e1 | series]; [discriminate |].
  destruct (validate_and_transform_options series kwargs)
    as [e2 | options]; [discriminate |].
  pose proof (main_loop_no_title keys options 0) as N.
  destruct (main_loop keys options 0) as [out' r']. cbn [fst] in N.
  intros H; injection H as <- <-.
  destruct (title options) as [t0 |].
  - split.
    + rewrite count_app, N. cbn. lia.
    + intros t w [E | Hin].
      * rewrite E. reflexivity.
      * exfalso. revert Hin. apply (count_zero_not_in is_title); auto.
  - split.
    + cbn [app]. rewrite N. lia.
    + intros t w Hin. exfalso. revert Hin.
      apply (count_zero_not_in is_title); auto.
Qed.

Lemma title_is_printed_once_and_first_witness :
  (count is_title
     (fst (plot sample_ys None
             (Build_Kwargs None None None None None None (Some true)
                (Some "demo"%string) None) ["u"; "l"; "q"]%string)) <= 1)%nat.
Proof.
  destruct (plot sample_ys None
              (Build_Kwargs None None None None None None (Some true)
                 (Some "demo"%string) None) ["u"; "l"; "q"]%string)
    as [out [e | r]] eqn:E.
  - vm_compute in E. discriminate E.
  - exact (proj1 (title_is_printed_once_and_first _ _ _ _ _ _ E)).
Defined.
